(** * mapreducetorch: the corpus filter, the synonym augmentation and the
      hyperparameter search of [pyspark/main.py]

    A shallow embedding of the script's functions.  Python [str] values are
    [string]s (one [ascii] per code point below 256), [int]s are [Z], a
    [set] of strings is a [gset string], a [dict] with string keys is a
    [gmap string _], a [list] is a [list].  A raised exception is the
    [Raise] case of [result].  The collaborators the script only calls
    (the WordNet corpus, the [random] module, the tokenizer, the trainer,
    the optimizer's sampler) are classes; the functions and the statements
    take an instance of each from their context. *)

From Stdlib Require Import ZArith Ascii Floats.SpecFloat.
From stdpp Require Import gmap strings list fin_maps pretty.

Local Open Scope Z_scope.

(** ** Exceptions *)

Inductive exception :=
  | KeyError (key : string)
  | IndexError
  | ValueError
  | OSError.

Inductive result (A : Type) :=
  | Ok (a : A)
  | Raise (e : exception).
Arguments Ok {A} a.
Arguments Raise {A} e.

Global Instance result_ret : MRet result := λ A a, Ok a.
Global Instance result_bind : MBind result := λ A B f m,
  match m with
  | Ok a => f a
  | Raise e => Raise e
  end.

Definition returns {A} (m : result A) : Prop := ∃ a, m = Ok a.

(** ** The [str] methods the script calls *)

Module Str.

(** [str.isspace] on one code point below 256: the characters on which
    [str.split()] cuts. *)
Definition isspace (c : ascii) : bool :=
  match c with
  | "009" | "010" | "011" | "012" | "013"
  | "028" | "029" | "030" | "031" | " "
  | "133" | "160" => true
  | _ => false
  end%char.

(** [sentence.split()]: maximal runs of non-space characters, in order;
    [word] is the run being read. *)
Fixpoint split_from (word : string) (s : string) : list string :=
  match s with
  | EmptyString => if decide (word = "") then [] else [word]
  | String c s' =>
      if isspace c
      then (if decide (word = "") then [] else [word]) ++ split_from "" s'
      else split_from (word +:+ String c "") s'
  end.
Definition split (s : string) : list string := split_from "" s.

(** [sep.join(l)] *)
Fixpoint join (sep : string) (l : list string) : string :=
  match l with
  | [] => ""
  | [x] => x
  | x :: l' => x +:+ sep +:+ join sep l'
  end.

(** [s.replace(old, new)] for one-character [old] and [new]. *)
Fixpoint replace (old new : ascii) (s : string) : string :=
  match s with
  | EmptyString => EmptyString
  | String c s' =>
      String (if decide (c = old) then new else c) (replace old new s')
  end.

End Str.

(** ** Python [set] and [dict] operations that can raise *)

(** [s.remove(x)]: [KeyError] when [x] is not a member. *)
Definition set_remove (x : string) (s : gset string) : result (gset string) :=
  if decide (x ∈ s) then Ok (s ∖ {[x]}) else Raise (KeyError x).

(** [d[k]]: [KeyError] when [k] is not a key. *)
Definition getitem {V} (d : gmap string V) (k : string) : result V :=
  match d !! k with
  | Some v => Ok v
  | None => Raise (KeyError k)
  end.

(** ** WordNet as the script sees it *)

Record wn_lemma := WnLemma { name : string }.
Record synset := Synset { lemmas : list wn_lemma }.

(** [wordnet.synsets]: the corpus lookup. *)
Class WordNet := synsets : string → list synset.

Section Synonyms.

Context {wn : WordNet}.

(** Lines 22-26: the two nested loops that fill the set. *)
Definition collect_synonyms (word : string) : gset string :=
  foldl (λ synonyms syn,
           foldl (λ synonyms lem,
                    let synonym := Str.replace "_" " " (name lem) in
                    {[synonym]} ∪ synonyms)
                 synonyms (lemmas syn))
        ∅ (synsets word).

(** [list(synonyms)] enumerates the set in an order Python leaves
    unspecified; [elements] fixes one, and no statement below depends on
    which. *)
Definition get_synonyms (word : string) : result (list string) :=
  let synonyms := collect_synonyms word in
  synonyms ← (if decide (word ∈ synonyms)
              then set_remove word synonyms
              else Ok synonyms);
  Ok (elements synonyms).

End Synonyms.

(** ** The augmentation: [synonym_replacement] and [augment_example] *)

Abbreviation float := spec_float.

(** [0.0] and [1.0] as binary64 values. *)
Definition float_zero : float := S754_zero false.
Definition float_one : float := S754_finite false 4503599627370496 (-52).

(** The process-wide generator of the [random] module, as a state [rng]
    that every call consumes and returns. *)
Class Random := {
  rng : Type;
  (** [random.shuffle(x)], returning the reordered list. *)
  shuffle : list string → rng → list string * rng;
  (** [random.choice(seq)] on a non-empty [seq]. *)
  choice : list string → rng → string * rng;
  (** [random.uniform(0, 1)] *)
  uniform_0_1 : rng → float * rng
}.

Section Augmentation.

Context {wn : WordNet} {rnd : Random}.

(** [random.choice] raises [IndexError] on an empty sequence. *)
Definition random_choice (seq : list string) (g : rng)
  : result (string * rng) :=
  match seq with
  | [] => Raise IndexError
  | _ => Ok (choice seq g)
  end.

(** Line 51: the list comprehension over the working copy. *)
Definition replace_word (random_word synonym : string)
    (new_words : list string) : list string :=
  (λ word, if decide (word = random_word) then synonym else word)
    <$> new_words.

(** Lines 48-52: one iteration of the loop, before the test of line 53. *)
Definition loop_body (random_word : string)
    (st : list string * Z * rng) : result (list string * Z * rng) :=
  let '(new_words, num_replaced, g) := st in
  synonyms ← get_synonyms random_word;
  if decide (1 ≤ Z.of_nat (length synonyms)) then
    '(synonym, g) ← random_choice synonyms g;
    Ok (replace_word random_word synonym new_words, num_replaced + 1, g)
  else Ok (new_words, num_replaced, g).

(** Lines 47-54: the loop with its [break]. *)
Fixpoint replace_loop (n : Z) (random_word_list : list string)
    (st : list string * Z * rng) : result (list string * Z * rng) :=
  match random_word_list with
  | [] => Ok st
  | random_word :: random_word_list =>
      st ← loop_body random_word st;
      if decide (n ≤ st.1.2) then Ok st
      else replace_loop n random_word_list st
  end.

(** Line 44: the distinct words of the sentence that have a synset. *)
Definition candidate_pool (words : list string) : gset string :=
  list_to_set (filter (λ word, synsets word ≠ []) words).

(** Lines 42-54, keeping the counter next to the working copy. *)
Definition synonym_replacement_run (sentence : string) (n : Z) (g : rng)
  : result (list string * Z * rng) :=
  let words := Str.split sentence in
  let new_words := words in
  let random_word_list := elements (candidate_pool words) in
  let '(random_word_list, g) := shuffle random_word_list g in
  let num_replaced := 0 in
  replace_loop n random_word_list (new_words, num_replaced, g).

Definition synonym_replacement (sentence : string) (n : Z) (g : rng)
  : result (string * rng) :=
  '(new_words, _, g) ← synonym_replacement_run sentence n g;
  Ok (Str.join " " new_words, g).

(** Lines 71-72.  The condition of the conditional expression is
    evaluated first, then the chosen branch. *)
Definition augment_example (example : gmap string string)
    (augment_rate : float) (n : Z) (g : rng)
  : result (gmap string string * rng) :=
  let '(u, g) := uniform_0_1 g in
  '(augmented_text, g) ←
    (if SFltb u augment_rate then
       text ← getitem example "text";
       synonym_replacement text n g
     else
       text ← getitem example "text";
       Ok (text, g));
  Ok ({["text" := augmented_text]}, g).

End Augmentation.

(** The tokens of the sentence that the result replaced: those with a
    position at which the result holds another string. *)
Definition replaced_tokens (words new_words : list string) : gset string :=
  list_to_set (filter (λ p, p.1 ≠ p.2) (zip words new_words)).*1.

(** What the script relies on from the [random] module: [shuffle] reorders
    its argument and [choice] returns a member of a non-empty sequence. *)
Definition shuffle_permutes `{Random} : Prop :=
  ∀ (x : list string) (g : rng), (shuffle x g).1 ≡ₚ x.
Definition choice_picks_member `{Random} : Prop :=
  ∀ (seq : list string) (g : rng), seq ≠ [] → (choice seq g).1 ∈ seq.

(** [b] is a synonym of the candidate token [a]. *)
Definition synonym_of `{WordNet} (pool : gset string) (a b : string) : Prop :=
  a ∈ pool ∧ ∃ synonyms, get_synonyms a = Ok synonyms ∧ b ∈ synonyms.

(** Every element of the result is the token at its position or one of
    that token's synonyms. *)
Definition original_or_synonym `{WordNet} (words new_words : list string)
  : Prop :=
  Forall2 (λ word new_word,
             new_word = word
             ∨ ∃ synonyms, get_synonyms word = Ok synonyms
                           ∧ new_word ∈ synonyms)
          words new_words.

(** Every element of the result is reached from the token at its position
    by zero or more steps from a candidate token to one of its synonyms. *)
Definition original_or_synonym_chain `{WordNet} (words new_words : list string)
  : Prop :=
  Forall2 (rtc (synonym_of (candidate_pool words))) words new_words.

(** ** The corpus filter *)

(** [tokenizer.tokenize] of the pretrained tokenizer. *)
Class Tokenizer := {
  token : Type;
  tokenize : string → list token
}.

Section Filter.

Context {tok : Tokenizer}.

(** Lines 90-93.  [input_file] is the sequence of lines the iteration
    over the input file yields, [output_file] what has been written to
    the output file so far, one entry per [write]. *)
Fixpoint filter_loop (max_tokens : Z) (input_file : list string)
    (output_file : list string) : list string :=
  match input_file with
  | [] => output_file
  | line :: input_file =>
      let tokens := tokenize line in
      if decide (Z.of_nat (length tokens) ≤ max_tokens)
      then filter_loop max_tokens input_file (output_file ++ [line])
      else filter_loop max_tokens input_file output_file
  end.

(** Opening the output file with mode ['w'] starts it empty. *)
Definition filter_sentences_by_token_limit (input_file : list string)
    (max_tokens : Z) : list string :=
  filter_loop max_tokens input_file [].

End Filter.

(** ** The hyperparameter search *)

Definition is_nan (f : float) : bool :=
  match f with
  | S754_nan => true
  | _ => false
  end.

(** The optimizer, as far as the script uses it: a study created with a
    direction, [optimize] running the objective once per trial on the
    numbers 0, 1, ... in sequence and recording what it returns (a trial
    whose objective returns NaN is recorded as failed, an exception of the
    objective ends the run with that exception), and [best_trial] giving
    the completed trial whose value no other completed trial beats.  The
    objective works on a state [W], which it leaves changed also when it
    raises. *)
Module Optuna.

Inductive direction := Minimize | Maximize.
Inductive trial_state := COMPLETE | FAIL.

Record frozen_trial := FrozenTrial {
  number : nat;
  state : trial_state;
  value : option float
}.

Record study := Study {
  study_direction : direction;
  trials : list frozen_trial
}.

Definition create_study (d : direction) : study := Study d [].

Definition record_trial (t : frozen_trial) (s : study) : study :=
  Study (study_direction s) (trials s ++ [t]).

Section Optimize.
Context {W : Type}.
Variable func : nat → W → result float * W.

Fixpoint optimize (n_trials : nat) (s : study) (w : W)
  : result study * W :=
  match n_trials with
  | O => (Ok s, w)
  | S n_trials =>
      let number := length (trials s) in
      match func number w with
      | (Raise e, w) => (Raise e, w)
      | (Ok v, w) =>
          let t := if is_nan v then FrozenTrial number FAIL None
                   else FrozenTrial number COMPLETE (Some v) in
          optimize n_trials (record_trial t s) w
      end
  end.
End Optimize.

(** Whether a new value replaces the best one so far. *)
Definition improves (d : direction) (best_value new_value : float) : bool :=
  match d with
  | Maximize => SFltb best_value new_value
  | Minimize => SFltb new_value best_value
  end.

Definition update_best (d : direction) (best : option frozen_trial)
    (t : frozen_trial) : option frozen_trial :=
  match state t, value t with
  | COMPLETE, Some new_value =>
      match best with
      | Some b =>
          match value b with
          | Some best_value =>
              if improves d best_value new_value then Some t else best
          | None => Some t
          end
      | None => Some t
      end
  | _, _ => best
  end.

(** [study.best_trial]: [ValueError] when no trial completed. *)
Definition best_trial (s : study) : result frozen_trial :=
  match foldl (update_best (study_direction s)) None (trials s) with
  | Some t => Ok t
  | None => Raise ValueError
  end.

End Optuna.

Record training_arguments := TrainingArguments {
  output_dir : string;
  num_train_epochs : Z;
  per_device_train_batch_size : Z;
  learning_rate : float;
  logging_dir : string;
  logging_steps : Z;
  use_cpu : bool
}.

(** A [DistilBertForMaskedLM], and the weights [from_pretrained] finds
    under a name that is not a local directory. *)
Class Weights := {
  model : Type;
  hub : string → option model
}.

(** What the script leaves behind: the model directories on disk and the
    lines printed. *)
Record world `{Weights} := World {
  saved_models : gmap string model;
  stdout : list string
}.
Arguments World {_} _ _.

(** A step of the script: it ends with a value or with an exception, and
    leaves a world either way. *)
Definition script `{Weights} (A : Type) : Type := world → result A * world.

Global Instance script_ret `{Weights} : MRet script := λ A a w, (Ok a, w).
Global Instance script_bind `{Weights} : MBind script := λ A B f m w,
  match m w with
  | (Ok a, w) => f a w
  | (Raise e, w) => (Raise e, w)
  end.

Definition raise `{Weights} {A} (e : exception) : script A :=
  λ w, (Raise e, w).
Definition lift `{Weights} {A} (r : result A) : script A :=
  λ w, (r, w).

(** The loops of the [transformers] library that [Trainer] runs on a
    dataset.  Both may write checkpoints and print log lines. *)
Class Loops `{Weights} := {
  dataset : Type;
  (** [train_dataset], the tokenized dataset of line 118. *)
  train_dataset : dataset;
  (** The training loop: the trained model. *)
  training_loop : model → training_arguments → dataset → script model;
  (** The evaluation loop: the metrics. *)
  evaluation_loop :
    model → training_arguments → dataset → script (gmap string float)
}.

(** The values the optimizer's sampler hands to the trial with a given
    number. *)
Class Sampler := {
  suggest_int : nat → string → Z → Z → Z;
  suggest_categorical : nat → string → list Z → Z;
  suggest_float : nat → string → float → float → float
}.

(** How an f-string renders a float. *)
Class FloatStr := float_str : float → string.

Section Search.

Context {wt : Weights} {lp : Loops} {smp : Sampler} {fs : FloatStr}.

Definition from_pretrained (path : string) : script model := λ w,
  match saved_models w !! path with
  | Some m => (Ok m, w)
  | None =>
      match hub path with
      | Some m => (Ok m, w)
      | None => (Raise OSError, w)
      end
  end.

Definition save_pretrained (m : model) (path : string) : script unit := λ w,
  (Ok tt, World (<[path := m]> (saved_models w)) (stdout w)).

Definition print (line : string) : script unit := λ w,
  (Ok tt, World (saved_models w) (stdout w ++ [line])).

(** A [Trainer] object.  Its two datasets are optional keyword arguments
    of the constructor, [None] when not given; the data collator is left
    out. *)
Record Trainer := MkTrainer {
  trainer_model : model;
  trainer_args : training_arguments;
  trainer_train_dataset : option dataset;
  trainer_eval_dataset : option dataset
}.

(** [trainer.train()]: [ValueError] without a training set; the model of
    the trainer is trained in place. *)
Definition trainer_train (t : Trainer) : script Trainer :=
  match trainer_train_dataset t with
  | None => raise ValueError
  | Some d =>
      m ← training_loop (trainer_model t) (trainer_args t) d;
      mret (MkTrainer m (trainer_args t) (trainer_train_dataset t)
              (trainer_eval_dataset t))
  end.

(** [trainer.evaluate(eval_dataset)]: the argument, or else the
    evaluation set given to the constructor; [ValueError] when there is
    neither. *)
Definition trainer_evaluate (t : Trainer) (eval_dataset : option dataset)
  : script (gmap string float) :=
  let eval_dataset :=
    match eval_dataset with
    | Some d => Some d
    | None => trainer_eval_dataset t
    end in
  match eval_dataset with
  | None => raise ValueError
  | Some d => evaluation_loop (trainer_model t) (trainer_args t) d
  end.

Definition learning_rate_low : float :=
  S754_finite false 7378697629483821 (-67).
Definition learning_rate_high : float :=
  S754_finite false 4611686018427388 (-63).

(** Lines 131-139 *)
Definition training_args_of (number : nat) : training_arguments :=
  {| output_dir := "./results_trial_" +:+ pretty number;
     num_train_epochs := suggest_int number "num_train_epochs" 1 5;
     per_device_train_batch_size :=
       suggest_categorical number "per_device_train_batch_size" [8; 16];
     learning_rate :=
       suggest_float number "learning_rate"
         learning_rate_low learning_rate_high;
     logging_dir := "./logs";
     logging_steps := 10;
     use_cpu := true |}.

(** Lines 130-153; [number] is [trial.number].  The trainer of lines
    141-146 gets a training set and no evaluation set, and line 149 calls
    [evaluate] without an argument. *)
Definition model_training_function (number : nat) : script float :=
  model ← from_pretrained "distilbert-base-uncased";
  let training_args := training_args_of number in
  let trainer := MkTrainer model training_args (Some train_dataset) None in
  trainer ← trainer_train trainer;
  eval_results ← trainer_evaluate trainer None;
  _ ← save_pretrained (trainer_model trainer)
        ("./best_model_trial_" +:+ pretty number);
  eval_loss ← lift (getitem eval_results "eval_loss");
  mret eval_loss.

Definition value_str (v : option float) : string :=
  match v with
  | Some f => float_str f
  | None => "None"
  end.

(** The module-level names bound by lines 156-164. *)
Record search_globals := SearchGlobals {
  study : Optuna.study;
  best_trial : Optuna.frozen_trial;
  best_model_path : string;
  final_model : model
}.

(** Lines 156-164 *)
Definition run_search : script search_globals :=
  let study := Optuna.create_study Optuna.Minimize in
  study ← (Optuna.optimize model_training_function 3 study : script _);
  best_trial ← lift (Optuna.best_trial study);
  _ ← print ("Best trial: " +:+ pretty (Optuna.number best_trial)
             +:+ " with loss " +:+ value_str (Optuna.value best_trial));
  let best_model_path :=
    "./best_model_trial_" +:+ pretty (Optuna.number best_trial) in
  model ← from_pretrained best_model_path;
  mret (SearchGlobals study best_trial best_model_path model).

End Search.

(** ** The files of the corpus filter *)

(** [os.linesep] *)
Class OS := linesep : string.

(** What a text file opened with [open(path, 'r')] hands to the program:
    a carriage return followed by a newline, and a carriage return alone,
    arrive as one newline. *)
Fixpoint universal_newlines (content : string) : string :=
  match content with
  | EmptyString => EmptyString
  | String c content' =>
      if decide (c = "013"%char) then
        String "010"
          match content' with
          | EmptyString => EmptyString
          | String c' content'' =>
              if decide (c' = "010"%char) then universal_newlines content''
              else universal_newlines content'
          end
      else String c (universal_newlines content')
  end.

(** Cutting the text read into lines: every line comes with its newline,
    and the last one as it is when the text does not end with a newline.
    [line] is the line being read. *)
Fixpoint lines_from (line : string) (text : string) : list string :=
  match text with
  | EmptyString => if decide (line = "") then [] else [line]
  | String c text' =>
      if decide (c = "010"%char)
      then (line +:+ String c "") :: lines_from "" text'
      else lines_from (line +:+ String c "") text'
  end.

(** [for line in input_file] on a file of the given content. *)
Definition readlines (content : string) : list string :=
  lines_from "" (universal_newlines content).

(** What [write] puts into a text file opened with [open(path, 'w')]:
    every newline goes out as [os.linesep]. *)
Fixpoint write_newlines `{OS} (text : string) : string :=
  match text with
  | EmptyString => EmptyString
  | String c text' =>
      if decide (c = "010"%char) then linesep +:+ write_newlines text'
      else String c (write_newlines text')
  end.

(** The content of a file opened with mode ['w'] after a sequence of
    [write] calls. *)
Fixpoint written `{OS} (writes : list string) : string :=
  match writes with
  | [] => ""
  | line :: writes => write_newlines line +:+ written writes
  end.

(** Lines 89-93 on the contents of the two files. *)
Definition filter_file `{Tokenizer, OS} (input_content : string)
    (max_tokens : Z) : string :=
  written (filter_sentences_by_token_limit (readlines input_content)
             max_tokens).

(** The text of a sequence of lines. *)
Fixpoint concat_lines (lines : list string) : string :=
  match lines with
  | [] => ""
  | line :: lines => line +:+ concat_lines lines
  end.

(** ** The dataset of lines 101-102 *)

(** [Dataset.from_dict({'text': data})]: one row per element. *)
Definition from_dict_text (data : list string) : list (gmap string string) :=
  (λ text, {["text" := text]}) <$> data.

(** [dataset.map(function)]: the rows in order, each updated with the
    dictionary the function returns for it. *)
Fixpoint dataset_map `{Random}
    (function : gmap string string → rng → result (gmap string string * rng))
    (rows : list (gmap string string)) (g : rng)
  : result (list (gmap string string) * rng) :=
  match rows with
  | [] => Ok ([], g)
  | example :: rows =>
      '(update, g) ← function example g;
      '(rows, g) ← dataset_map function rows g;
      Ok ((update ∪ example) :: rows, g)
  end.

(** [0.3] as a binary64 value. *)
Definition float_0_3 : float := S754_finite false 5404319552844595 (-54).

(** Lines 101-102 *)
Definition augmented_data `{WordNet, Random} (data : list string) (g : rng)
  : result (list (gmap string string) * rng) :=
  let data := from_dict_text data in
  dataset_map (λ example, augment_example example float_0_3 2) data g.

(** ** Notions the statements use *)

(** The characters of a string. *)
Fixpoint chars (s : string) : list ascii :=
  match s with
  | EmptyString => []
  | String c s => c :: chars s
  end.

(** Whether [get_synonyms] has something to offer for a word. *)
Definition has_synonyms `{WordNet} (word : string) : bool :=
  match get_synonyms word with
  | Ok (_ :: _) => true
  | _ => false
  end.

(** A string that [str.split()] gives back as one token: not empty and
    without white space. *)
Definition one_token (s : string) : Prop :=
  s ≠ "" ∧ ∀ c, c ∈ chars s → Str.isspace c = false.

(** A corpus whose lemma names are single words: none is empty, none has
    an underscore or white space. *)
Definition single_word_names `{WordNet} : Prop :=
  ∀ word syn lem, syn ∈ synsets word → lem ∈ lemmas syn →
    name lem ≠ ""
    ∧ ∀ c, c ∈ chars (name lem) → c ≠ "_"%char ∧ Str.isspace c = false.

(** How many candidate tokens of a sentence have a synonym. *)
Definition candidates_with_synonyms `{WordNet} (words : list string) : nat :=
  length (filter (λ word, has_synonyms word = true)
            (elements (candidate_pool words))).

(** A line as the iteration over a file yields it: not empty, with a
    newline at its end or nowhere. *)
Definition terminated (line : string) : Prop :=
  ∃ body, line = body +:+ String "010" "" ∧ "010"%char ∉ chars body.
Definition unterminated (line : string) : Prop :=
  line ≠ "" ∧ "010"%char ∉ chars line.

(** The lines of a file: all terminated, but possibly the last. *)
Fixpoint file_lines (lines : list string) : Prop :=
  match lines with
  | [] => True
  | [line] => terminated line ∨ unterminated line
  | line :: lines => terminated line ∧ file_lines lines
  end.

(** ** A small corpus and a replayable random source

    Concrete collaborators on which the functions above can be run. *)

Module Sample.

Definition syn (names : list string) : synset := Synset (WnLemma <$> names).

(** A few entries shaped like WordNet's. *)
#[export] Instance wordnet : WordNet := λ word,
  if decide (word = "cat") then [syn ["cat"; "true_cat"]]
  else if decide (word = "big") then [syn ["large"; "big"]]
  else if decide (word = "large") then
    [syn ["large"; "big"]; syn ["bombastic"; "large"]]
  else if decide (word = "pregnant") then
    [syn ["pregnant"]; syn ["with_child"; "pregnant"]]
  else if decide (word = "sat") then [syn ["sat"]]
  else [].

(** The generator replays a tape of draws. *)
Definition draw (g : list nat) : nat * list nat := (hd 0%nat g, tl g).

Fixpoint insert_at (i : nat) (x : string) (l : list string) : list string :=
  match i, l with
  | S i, y :: l => y :: insert_at i x l
  | _, _ => x :: l
  end.

Fixpoint tape_shuffle (x : list string) (g : list nat)
  : list string * list nat :=
  match x with
  | [] => ([], g)
  | w :: x =>
      let '(x, g) := tape_shuffle x g in
      let '(i, g) := draw g in
      (insert_at i w x, g)
  end.

Definition tape_choice (seq : list string) (g : list nat)
  : string * list nat :=
  let '(i, g) := draw g in
  (nth (i mod length seq) seq "", g).

Definition float_half : float := S754_finite false 4503599627370496 (-53).

Definition tape_uniform_0_1 (g : list nat) : float * list nat :=
  let '(i, g) := draw g in
  (if decide (i = 0%nat) then float_zero else float_half, g).

#[export] Instance random : Random := {|
  rng := list nat;
  shuffle := tape_shuffle;
  choice := tape_choice;
  uniform_0_1 := tape_uniform_0_1
|}.

(** The generator that will make the given draws. *)
Definition tape (draws : list nat) : rng := draws.

(** A tokenizer that cuts at white space. *)
#[export] Instance tokenizer : Tokenizer := {|
  token := string;
  tokenize := Str.split
|}.

(** Collaborators for the search: a model is the text of what happened
    to it, training leaves a checkpoint and a log line, and the sampler
    hands trial [k] the epoch count [k + 1]. *)
#[export] Instance weights : Weights := {|
  model := string;
  hub path :=
    if decide (path = "distilbert-base-uncased") then Some "base" else None
|}.

#[export] Instance loops : Loops := {|
  dataset := list string;
  train_dataset := ["input_ids"];
  training_loop m a d := λ w,
    let m := m +:+ " trained into " +:+ output_dir a in
    (Ok m,
     World (<[output_dir a +:+ "/checkpoint-1" := m]> (saved_models w))
       (stdout w ++ ["{'loss': 2.5}"]));
  evaluation_loop m a d := λ w,
    (Ok {["eval_loss" := float_one]}, w)
|}.

(** Line endings of a POSIX system. *)
#[export] Instance posix : OS := String "010" "".

(** A file of three lines: the first ends with a carriage return and a
    newline, the second with a newline, the third with nothing. *)
Definition corpus_file : string :=
  "a b" +:+ String "013" (String "010" "") +:+ "c d e" +:+ String "010" "f".

#[export] Instance sampler : Sampler := {|
  suggest_int number _ low high := Z.of_nat number + 1;
  suggest_categorical number _ l := hd 0 l;
  suggest_float number _ low high := low
|}.

#[export] Instance float_repr : FloatStr := λ f,
  match f with
  | S754_finite false 4503599627370496 (-53) => "0.5"
  | S754_finite false 4503599627370496 (-52) => "1.0"
  | _ => "nan"
  end.

End Sample.

(** A corpus whose lemma names are single words. *)
Module SampleWords.

Definition wordnet : WordNet := λ word,
  if decide (word = "big") then [Sample.syn ["large"; "big"]]
  else if decide (word = "happy") then
    [Sample.syn ["happy"]; Sample.syn ["glad"; "happy"]]
  else [].

End SampleWords.

(** * Properties *)

(** ** The [result] monad *)

Lemma bind_Ok {A B} (f : A → result B) (m : result A) (b : B) :
  m ≫= f = Ok b ↔ ∃ a, m = Ok a ∧ f a = Ok b.
Proof.
  destruct m as [a|e]; simpl; split.
  - eauto.
  - by intros (a' & [= ->] & ?).
  - done.
  - by intros (a' & [=] & ?).
Qed.

Lemma returns_Ok {A} (a : A) : returns (Ok a).
Proof. by exists a. Qed.

(** ** The synonym provider *)

Section SynonymsFacts.

Context {wn : WordNet}.

Lemma elem_of_foldl_lemmas (x : string) (acc : gset string)
    (ls : list wn_lemma) :
  x ∈ foldl (λ synonyms lem,
               {[Str.replace "_" " " (name lem)]} ∪ synonyms) acc ls
  ↔ x ∈ acc ∨ ∃ lem, lem ∈ ls ∧ x = Str.replace "_" " " (name lem).
Proof.
  revert acc. induction ls as [|lem ls IH]; intros acc; simpl.
  - split; [by left | intros [?|(lem & Hin & _)]; [done | by inv Hin]].
  - rewrite IH, elem_of_union, elem_of_singleton. split.
    + intros [[->|?]|(lem' & ? & ->)]; [right | by left | right].
      * exists lem. split; [apply list_elem_of_here | done].
      * exists lem'. split; [by apply list_elem_of_further | done].
    + intros [?|(lem' & Hin & ->)]; [by left; right |].
      apply elem_of_cons in Hin as [->|?]; [by left; left |].
      right. by exists lem'.
Qed.

(** The set built by lines 22-26 holds exactly the lemma names of the
    synsets of the word, with underscores turned into spaces. *)
Lemma elem_of_collect_synonyms (word x : string) :
  x ∈ collect_synonyms word
  ↔ ∃ syn lem, syn ∈ synsets word ∧ lem ∈ lemmas syn
               ∧ x = Str.replace "_" " " (name lem).
Proof.
  unfold collect_synonyms.
  assert (∀ (l : list synset) (acc : gset string),
    x ∈ foldl (λ synonyms syn,
                 foldl (λ synonyms lem,
                          let synonym := Str.replace "_" " " (name lem) in
                          {[synonym]} ∪ synonyms) synonyms (lemmas syn))
              acc l
    ↔ x ∈ acc ∨ ∃ syn lem, syn ∈ l ∧ lem ∈ lemmas syn
                            ∧ x = Str.replace "_" " " (name lem)) as Hgen.
  { induction l as [|syn l IH]; intros acc; simpl.
    - split; [by left | intros [?|(? & ? & Hin & _)]; [done | by inv Hin]].
    - rewrite IH, elem_of_foldl_lemmas. split.
      + intros [[?|(lem & ? & ->)]|(syn' & lem & ? & ? & ->)].
        * by left.
        * right. exists syn, lem. split; [apply list_elem_of_here | done].
        * right. exists syn', lem.
          split; [by apply list_elem_of_further | done].
      + intros [?|(syn' & lem & Hin & ? & ->)]; [by left; left |].
        apply elem_of_cons in Hin as [->|?].
        * left; right. by exists lem.
        * right. by exists syn', lem. }
  rewrite Hgen. split; [intros [Hx|?]; [set_solver | done] | by right].
Qed.

(** Both branches of line 27 leave the set without the word; the
    [remove] of line 28 is never reached on a set that lacks it. *)
Lemma get_synonyms_eq (word : string) :
  get_synonyms word
  = Ok (elements (collect_synonyms word ∖ {[word]})).
Proof.
  unfold get_synonyms, set_remove.
  destruct (decide (word ∈ collect_synonyms word)) as [Hin|Hout];
    simpl.
  - done.
  - do 2 f_equal. symmetry. by apply difference_disjoint_L, disjoint_singleton_r.
Qed.

Lemma get_synonyms_returns (word : string) :
  returns (get_synonyms word).
Proof. rewrite get_synonyms_eq. apply returns_Ok. Qed.

Lemma elem_of_get_synonyms (word x : string) (l : list string) :
  get_synonyms word = Ok l →
  x ∈ l ↔ x ≠ word ∧ x ∈ collect_synonyms word.
Proof.
  rewrite get_synonyms_eq. intros [= <-].
  rewrite elem_of_elements, elem_of_difference, not_elem_of_singleton. tauto.
Qed.

(** C4: for every word W, [get_synonyms W] returns a list, and W is not
    a member of it. *)
Theorem get_synonyms_excludes_word (word : string) :
  ∃ l, get_synonyms word = Ok l ∧ word ∉ l.
Proof.
  exists (elements (collect_synonyms word ∖ {[word]})).
  split; [apply get_synonyms_eq |].
  rewrite elem_of_elements.
  intros [_ Hout]%elem_of_difference. apply Hout. by apply elem_of_singleton.
Qed.

(** C8: for every word W without a synset in the corpus,
    [get_synonyms W] returns the empty list; it does not raise. *)
Theorem get_synonyms_unknown_word (word : string) :
  synsets word = [] → get_synonyms word = Ok [].
Proof.
  intros Hnone. rewrite get_synonyms_eq. f_equal.
  apply elements_empty_iff, elem_of_equiv_empty. intros x.
  rewrite elem_of_difference, elem_of_collect_synonyms, Hnone.
  intros [(syn & _ & Hin & _) _]. by inv Hin.
Qed.

End SynonymsFacts.

Lemma get_synonyms_unknown_word_witness :
  synsets (WordNet := Sample.wordnet) "the" = []
  ∧ get_synonyms (wn := Sample.wordnet) "the" = Ok [].
Proof.
  split; [reflexivity |].
  apply (get_synonyms_unknown_word (wn := Sample.wordnet) "the"). reflexivity.
Defined.

(** ** The corpus filter *)

Section FilterFacts.

Context {tok : Tokenizer}.

Local Abbreviation token_count line := (Z.of_nat (length (tokenize line))).

Lemma filter_loop_eq (max_tokens : Z) (input_file output_file : list string) :
  filter_loop max_tokens input_file output_file
  = output_file ++ filter (λ line, token_count line ≤ max_tokens) input_file.
Proof.
  revert output_file.
  induction input_file as [|line input_file IH]; intros output_file; simpl.
  - by rewrite app_nil_r.
  - rewrite filter_cons. case_decide.
    + by rewrite IH, <- app_assoc.
    + apply IH.
Qed.

(** C3: the filter writes exactly the input lines whose token count is
    at most [max_tokens], each one as it was read and in the order of the
    input; every line it drops has more than [max_tokens] tokens. *)
Theorem filter_sentences_by_token_limit_spec
    (input_file : list string) (max_tokens : Z) :
  let output_file :=
    filter_sentences_by_token_limit input_file max_tokens in
  output_file = filter (λ line, token_count line ≤ max_tokens) input_file
  ∧ output_file `sublist_of` input_file
  ∧ (∀ line, line ∈ output_file ↔
               line ∈ input_file ∧ token_count line ≤ max_tokens)
  ∧ (∀ line, line ∈ input_file → line ∉ output_file →
               max_tokens < token_count line).
Proof.
  unfold filter_sentences_by_token_limit. rewrite filter_loop_eq. simpl.
  split_and!.
  - done.
  - apply sublist_filter.
  - intros line. rewrite list_elem_of_filter. tauto.
  - intros line Hin Hout. rewrite list_elem_of_filter in Hout.
    destruct (decide (token_count line ≤ max_tokens)); [tauto | lia].
Qed.

End FilterFacts.

(** ** The augmentation *)

Section AugmentationFacts.

Context {wn : WordNet} {rnd : Random}.

(** *** One iteration *)

Lemma replace_word_length (random_word synonym : string)
    (new_words : list string) :
  length (replace_word random_word synonym new_words) = length new_words.
Proof. apply length_fmap. Qed.

Lemma replace_word_lookup (random_word synonym : string)
    (new_words : list string) (i : nat) :
  replace_word random_word synonym new_words !! i
  = (λ word, if decide (word = random_word) then synonym else word)
      <$> new_words !! i.
Proof. apply list_lookup_fmap. Qed.

(** The two ways an iteration can go: no synonym and nothing changes, or
    one synonym is drawn and substituted. *)
Lemma loop_body_cases (random_word : string) (new_words : list string)
    (num_replaced : Z) (g : rng) :
  (get_synonyms random_word = Ok []
   ∧ loop_body random_word (new_words, num_replaced, g)
     = Ok (new_words, num_replaced, g))
  ∨ (∃ synonyms, get_synonyms random_word = Ok synonyms
     ∧ synonyms ≠ []
     ∧ loop_body random_word (new_words, num_replaced, g)
       = Ok (replace_word random_word (choice synonyms g).1 new_words,
             num_replaced + 1, (choice synonyms g).2)).
Proof.
  destruct (get_synonyms_returns random_word) as [synonyms Hsyn].
  unfold loop_body. rewrite Hsyn.
  destruct synonyms as [|synonym synonyms].
  - by left.
  - right. exists (synonym :: synonyms). split_and!; [done..|].
    cbn [mbind result_bind]. rewrite decide_True by (simpl; lia).
    unfold random_choice. by destruct (choice _ g).
Qed.

(** C5: when the loop takes a candidate whose synonym list is not empty,
    one synonym is chosen, and the new working copy has that synonym at
    every position that held the candidate and the old word everywhere
    else. *)
Theorem loop_body_replaces_every_occurrence (random_word : string)
    (new_words synonyms : list string) (num_replaced : Z) (g : rng) :
  get_synonyms random_word = Ok synonyms →
  synonyms ≠ [] →
  ∃ synonym new_words' g',
    choice synonyms g = (synonym, g')
    ∧ loop_body random_word (new_words, num_replaced, g)
      = Ok (new_words', num_replaced + 1, g')
    ∧ length new_words' = length new_words
    ∧ (∀ i, new_words !! i = Some random_word →
            new_words' !! i = Some synonym)
    ∧ (∀ i word, new_words !! i = Some word → word ≠ random_word →
                 new_words' !! i = Some word).
Proof.
  intros Hsyn Hne.
  destruct (loop_body_cases random_word new_words num_replaced g)
    as [[Hnil _]|(synonyms' & Hsyn' & _ & Hbody)]; [congruence |].
  assert (synonyms' = synonyms) as -> by congruence.
  exists (choice synonyms g).1,
    (replace_word random_word (choice synonyms g).1 new_words),
    (choice synonyms g).2.
  split_and!.
  - by destruct (choice synonyms g).
  - done.
  - apply replace_word_length.
  - intros i Hi. rewrite replace_word_lookup, Hi. simpl.
    by rewrite decide_True.
  - intros i word Hi Hword. rewrite replace_word_lookup, Hi. simpl.
    by rewrite decide_False.
Qed.

(** *** The loop *)

(** A property kept by every iteration over a word of the list holds of
    the state the loop ends in, and the loop does end with a state. *)
Lemma replace_loop_invariant (P : list string * Z * rng → Prop) (n : Z)
    (random_word_list : list string) (st : list string * Z * rng) :
  P st →
  (∀ random_word st, random_word ∈ random_word_list → P st →
     ∃ st', loop_body random_word st = Ok st' ∧ P st') →
  ∃ st', replace_loop n random_word_list st = Ok st' ∧ P st'.
Proof.
  revert st.
  induction random_word_list as [|random_word l IH]; intros st HP Hstep.
  - by exists st.
  - destruct (Hstep random_word st) as (st1 & Hbody & HP1);
      [apply list_elem_of_here | done |].
    simpl. rewrite Hbody. simpl. case_decide; [by exists st1 |].
    apply IH; [done |]. intros rw st2 Hin. apply Hstep.
    by apply list_elem_of_further.
Qed.

Lemma loop_body_returns (random_word : string)
    (st : list string * Z * rng) :
  returns (loop_body random_word st).
Proof.
  destruct st as [[new_words num_replaced] g].
  destruct (loop_body_cases random_word new_words num_replaced g)
    as [[_ ->]|(? & _ & _ & ->)]; apply returns_Ok.
Qed.

(** The guard of line 49 keeps [random.choice] off the empty list, so
    the augmentation never raises. *)
Lemma synonym_replacement_run_returns (sentence : string) (n : Z) (g : rng) :
  returns (synonym_replacement_run sentence n g).
Proof.
  unfold synonym_replacement_run.
  destruct (shuffle _ g) as [random_word_list g1].
  destruct (replace_loop_invariant (λ _, True) n random_word_list
              (Str.split sentence, 0, g1)) as (st' & Hst' & _); [done | |].
  - intros rw st _ _. destruct (loop_body_returns rw st) as [st' ?]. eauto.
  - by exists st'.
Qed.

Lemma synonym_replacement_returns (sentence : string) (n : Z) (g : rng) :
  returns (synonym_replacement sentence n g).
Proof.
  unfold synonym_replacement.
  destruct (synonym_replacement_run_returns sentence n g)
    as ([[new_words k] g'] & ->).
  apply returns_Ok.
Qed.

(** *** The gate *)

(** No float at or above [0.0] is below [0.0]. *)
Lemma SFltb_zero_false (u : float) :
  SFleb float_zero u = true → SFltb u float_zero = false.
Proof. by destruct u as [[]|[]| |[] m e]. Qed.

(** C6: with [augment_rate = 0.0] and a draw of [random.uniform(0, 1)],
    which is never below zero, [augment_example] returns the text of the
    example as it was. *)
Theorem augment_example_rate_zero (example : gmap string string)
    (text : string) (n : Z) (g g' : rng) (u : float) :
  example !! "text" = Some text →
  uniform_0_1 g = (u, g') →
  SFleb float_zero u = true →
  augment_example example float_zero n g = Ok ({["text" := text]}, g').
Proof.
  intros Htext Hdraw Hu.
  unfold augment_example, getitem.
  by rewrite Hdraw, (SFltb_zero_false u Hu), Htext.
Qed.

(** C10: whatever the rate, the draw and the other keys of the example,
    [augment_example] returns a dictionary whose only key is ['text'];
    it returns one whenever the example has the key ['text'], and raises
    [KeyError] otherwise. *)
Theorem augment_example_only_text_key (example : gmap string string)
    (augment_rate : float) (n : Z) (g : rng) :
  match augment_example example augment_rate n g with
  | Ok (example', _) =>
      is_Some (example !! "text")
      ∧ dom example' = {["text"]}
      ∧ ∀ key, key ≠ "text" → example' !! key = None
  | Raise e => example !! "text" = None ∧ e = KeyError "text"
  end.
Proof.
  unfold augment_example, getitem.
  destruct (uniform_0_1 g) as [u g1].
  destruct (example !! "text") as [text|] eqn:Htext.
  - assert (∀ (text' : string) (g2 : rng),
      is_Some (Some text)
      ∧ dom ({["text" := text']} : gmap string string) = {["text"]}
      ∧ ∀ key, key ≠ "text" →
          ({["text" := text']} : gmap string string) !! key = None)
      as Hsingle.
    { intros text' g2. split_and!; [by eexists | apply dom_singleton_L |].
      intros key Hkey. by apply lookup_singleton_ne. }
    destruct (SFltb u augment_rate); simpl; [|by apply Hsingle].
    destruct (synonym_replacement_returns text n g1) as ([text' g2] & ->).
    simpl. by apply Hsingle.
  - by destruct (SFltb u augment_rate).
Qed.

End AugmentationFacts.

(** *** How many tokens a call replaces *)

Section ReplacementBound.

Context {wn : WordNet} {rnd : Random}.

Lemma elem_of_replaced_tokens (words new_words : list string) (w : string) :
  w ∈ replaced_tokens words new_words
  ↔ ∃ i w', words !! i = Some w ∧ new_words !! i = Some w' ∧ w ≠ w'.
Proof.
  unfold replaced_tokens. rewrite elem_of_list_to_set, list_elem_of_fmap.
  split.
  - intros ([w1 w'] & -> & Hin). apply list_elem_of_filter in Hin as [Hne Hin].
    apply list_elem_of_lookup in Hin as [i Hi].
    apply lookup_zip_with_Some in Hi as (x & y & [= -> ->] & ? & ?).
    by exists i, y.
  - intros (i & w' & Hw & Hw' & Hne). exists (w, w'). split; [done |].
    apply list_elem_of_filter. split; [done |].
    apply list_elem_of_lookup. exists i.
    apply lookup_zip_with_Some. by exists w, w'.
Qed.

(** The counter only grows, by one per iteration, and the test of line
    53 stops the loop at the first iteration that leaves it at [n] or
    above: the loop ends with at most [n], or with one more than it
    started with when that is already [n] or above. *)
Lemma replace_loop_counter (n : Z) (random_word_list : list string)
    (st st' : list string * Z * rng) :
  replace_loop n random_word_list st = Ok st' →
  st.1.2 ≤ st'.1.2 ≤ Z.max n (st.1.2 + 1).
Proof.
  revert st.
  induction random_word_list as [|random_word l IH]; intros st; simpl.
  - intros [= ->]. lia.
  - intros (st1 & Hbody & Hrest)%bind_Ok.
    assert (st1.1.2 = st.1.2 ∨ st1.1.2 = st.1.2 + 1) as Hstep.
    { destruct st as [[new_words k] g].
      destruct (loop_body_cases random_word new_words k g)
        as [[_ Heq]|(? & _ & _ & Heq)]; rewrite Heq in Hbody;
        injection Hbody as <-; simpl; auto. }
    case_decide as Hn.
    + injection Hrest as <-. lia.
    + apply IH in Hrest. lia.
Qed.

(** Every token whose position changed is one the loop substituted, and
    the loop counts each substitution. *)
Lemma replace_loop_replaced (words : list string) (n : Z)
    (random_word_list : list string) (g : rng) :
  ∃ st', replace_loop n random_word_list (words, 0, g) = Ok st'
    ∧ Z.of_nat (size (replaced_tokens words st'.1.1)) ≤ st'.1.2.
Proof.
  pose (P := λ st : list string * Z * rng,
    ∃ R : gset string, Z.of_nat (size R) ≤ st.1.2
      ∧ ∀ i w w', words !! i = Some w → st.1.1 !! i = Some w' →
                  w ≠ w' → w ∈ R).
  destruct (replace_loop_invariant P n random_word_list (words, 0, g))
    as (st' & Hloop & R & Hsize & HR).
  - exists ∅. split; [by rewrite size_empty |]. simpl.
    intros i w w' ? ? ?. congruence.
  - intros random_word [[new_words k] g0] _ (R & Hsize & HR). simpl in *.
    destruct (loop_body_cases random_word new_words k g0)
      as [[_ Heq]|(synonyms & _ & _ & Heq)].
    + eexists. split; [exact Heq |]. by exists R.
    + eexists. split; [exact Heq |]. exists ({[random_word]} ∪ R). simpl.
      split.
      * rewrite size_union_alt, size_singleton.
        assert (size (R ∖ {[random_word]}) ≤ size R)%nat
          by (by apply subseteq_size, subseteq_difference_l).
        lia.
      * intros i w w' Hw Hw' Hne. rewrite replace_word_lookup in Hw'.
        destruct (new_words !! i) as [w0|] eqn:Hw0; [|done].
        simpl in Hw'. injection Hw' as <-.
        apply elem_of_union. case_decide as Hrw.
        -- subst w0. destruct (decide (w = random_word)) as [->|Hne'].
           ++ left. by apply elem_of_singleton.
           ++ right. by apply (HR i w random_word).
        -- right. by apply (HR i w w0).
  - exists st'. split; [done |].
    etrans; [|exact Hsize]. apply inj_le, subseteq_size.
    intros w (i & w' & ? & ? & ?)%elem_of_replaced_tokens. by apply (HR i w w').
Qed.

(** X13: a call replaces at most [n] distinct tokens of the sentence when
    [n] is at least one, and at most one when [n] is zero or negative. *)
Theorem synonym_replacement_replaces_at_most (sentence : string) (n : Z)
    (g : rng) :
  ∃ new_words num_replaced g',
    synonym_replacement_run sentence n g = Ok (new_words, num_replaced, g')
    ∧ Z.of_nat (size (replaced_tokens (Str.split sentence) new_words))
      ≤ num_replaced
    ∧ num_replaced ≤ Z.max n 1.
Proof.
  unfold synonym_replacement_run.
  destruct (shuffle _ g) as [random_word_list g1].
  destruct (replace_loop_replaced (Str.split sentence) n random_word_list g1)
    as ([[new_words k] g'] & Hloop & Hsize).
  exists new_words, k, g'. split_and!; [done..|].
  by apply replace_loop_counter in Hloop as [_ ?].
Qed.

End ReplacementBound.

(** *** What the elements of the result are *)

Section ReplacementChain.

Context {wn : WordNet} {rnd : Random}.

Lemma replace_word_chain (pool : gset string) (random_word synonym : string)
    (words new_words : list string) :
  synonym_of pool random_word synonym →
  Forall2 (rtc (synonym_of pool)) words new_words →
  Forall2 (rtc (synonym_of pool)) words
    (replace_word random_word synonym new_words).
Proof.
  intros Hstep Hchain. apply Forall2_fmap_r.
  eapply Forall2_impl; [exact Hchain |]. intros w w' Hw. simpl.
  case_decide as Heq; [subst w' | done]. by eapply rtc_r.
Qed.

Lemma synonym_replacement_run_chain (sentence : string) (n : Z) (g : rng) :
  shuffle_permutes → choice_picks_member →
  ∃ new_words num_replaced g',
    synonym_replacement_run sentence n g = Ok (new_words, num_replaced, g')
    ∧ length new_words = length (Str.split sentence)
    ∧ original_or_synonym_chain (Str.split sentence) new_words.
Proof.
  intros Hshuffle Hchoice.
  unfold synonym_replacement_run, original_or_synonym_chain.
  set (words := Str.split sentence).
  specialize (Hshuffle (elements (candidate_pool words)) g).
  destruct (shuffle _ g) as [random_word_list g1]. simpl in Hshuffle.
  destruct (replace_loop_invariant
              (λ st, Forall2 (rtc (synonym_of (candidate_pool words)))
                       words st.1.1)
              n random_word_list (words, 0, g1))
    as ([[new_words k] g'] & Hloop & Hchain).
  - simpl. by apply Forall_Forall2_diag, Forall_forall.
  - intros random_word [[new_words k] g0] Hin Hchain. simpl in *.
    destruct (loop_body_cases random_word new_words k g0)
      as [[_ Heq]|(synonyms & Hsyn & Hne & Heq)].
    + eexists. split; [exact Heq | done].
    + eexists. split; [exact Heq |]. simpl.
      apply replace_word_chain; [|done]. split.
      * apply elem_of_elements. by rewrite <- Hshuffle.
      * exists synonyms. split; [done |]. by apply Hchoice.
  - exists new_words, k, g'. split_and!; [done | | done].
    symmetry. by eapply Forall2_length.
Qed.

End ReplacementChain.

(** ** Runs on the sample corpus *)

Section SampleRuns.

Import Sample.

Lemma insert_at_Permutation (i : nat) (w : string) (x : list string) :
  insert_at i w x ≡ₚ w :: x.
Proof.
  revert i. induction x as [|y x IH]; intros [|i]; simpl; try done.
  rewrite IH. apply Permutation_swap.
Qed.

Lemma sample_shuffle_permutes : shuffle_permutes.
Proof.
  intros x. unfold shuffle; simpl.
  induction x as [|w x IH]; intros g; simpl; [done |].
  specialize (IH g). destruct (tape_shuffle x g) as [x' g1]. simpl in *.
  by rewrite insert_at_Permutation, IH.
Qed.

Lemma sample_choice_picks_member : choice_picks_member.
Proof.
  intros seq g Hne. unfold choice; simpl. unfold tape_choice, draw; simpl.
  apply list_elem_of_In, nth_In, Nat.mod_upper_bound.
  by destruct seq.
Qed.

(** C1: with [n = 0] the call still replaces a token: on the sentence
    ["a cat"] the loop substitutes ["cat"] and counts one replacement
    before the test of line 53 is reached for the first time. *)
Theorem synonym_replacement_zero_replaces_one :
  synonym_replacement_run "a cat" 0 (tape [])
  = Ok (["a"; "true cat"], 1, tape [])
  ∧ replaced_tokens (Str.split "a cat") ["a"; "true cat"] = {["cat"]}
  ∧ ¬ (Z.of_nat (size (replaced_tokens (Str.split "a cat")
                         ["a"; "true cat"])) ≤ 0).
Proof.
  assert (replaced_tokens (Str.split "a cat") ["a"; "true cat"]
          = {["cat"]}) as Hreplaced by (by vm_compute).
  split_and!; [by vm_compute | done |].
  rewrite Hreplaced, size_singleton. lia.
Qed.

(** C2: with [n = 0] the result is not the sentence rejoined: on
    ["the  cat"] the call returns ["the true cat"], not ["the cat"]. *)
Theorem synonym_replacement_zero_changes_sentence :
  synonym_replacement "the  cat" 0 (tape []) = Ok ("the true cat", tape [])
  ∧ Str.join " " (Str.split "the  cat") = "the cat".
Proof. split; by vm_compute. Qed.

(** The strict reading of C9 fails on a chain: ["big"] becomes
    ["large"], which is itself a candidate and becomes ["bombastic"], a
    synonym of ["large"] but not of ["big"]. *)
Lemma synonym_replacement_chain_counterexample :
  ∃ new_words num_replaced g',
    synonym_replacement_run "big large" 2 (tape [])
    = Ok (new_words, num_replaced, g')
    ∧ ¬ original_or_synonym (Str.split "big large") new_words.
Proof.
  exists ["bombastic"; "bombastic"], 2, (tape []).
  split; [by vm_compute |].
  intros Hall. apply Forall2_cons_1 in Hall as [[Heq|(l & Hl & Hin)] _].
  - discriminate.
  - vm_compute in Hl. injection Hl as <-.
    apply list_elem_of_singleton in Hin. discriminate.
Qed.

End SampleRuns.

(** ** The search *)

Section SearchFacts.

Context {wt : Weights} {lp : Loops} {smp : Sampler} {fs : FloatStr}.

Lemma from_pretrained_world (path : string) (w : world) :
  (from_pretrained path w).2 = w.
Proof.
  unfold from_pretrained. destruct (saved_models w !! path); [done |].
  by destruct (hub path).
Qed.

(** The objective never returns a loss: its trainer has no evaluation set,
    so once the training is through, [evaluate] raises before the model is
    saved and the world stays as the training left it. *)
Lemma model_training_function_raises (number : nat) (w : world) :
  ∃ e w',
    model_training_function number w = (Raise e, w')
    ∧ ∀ base m w1,
        (from_pretrained "distilbert-base-uncased" w).1 = Ok base →
        training_loop base (training_args_of number) train_dataset w
        = (Ok m, w1) →
        e = ValueError ∧ w' = w1.
Proof.
  unfold model_training_function, mbind, script_bind.
  pose proof (from_pretrained_world "distilbert-base-uncased" w) as Hw.
  destruct (from_pretrained "distilbert-base-uncased" w) as [[base|e] w0];
    simpl in Hw; subst w0.
  - unfold trainer_train, mbind, script_bind. simpl.
    destruct (training_loop base (training_args_of number) train_dataset w)
      as [[m|e] w1] eqn:Htrain; simpl.
    + exists ValueError, w1. split; [done |].
      intros base' m' w1' Hbase Htrain'. simpl in Hbase.
      injection Hbase as <-. rewrite Htrain in Htrain'.
      by injection Htrain' as _ <-.
    + exists e, w1. split; [done |]. intros base' m' w1' Hbase Htrain'.
      simpl in Hbase. injection Hbase as <-. rewrite Htrain in Htrain'.
      discriminate.
  - exists e, w. split; [done |]. intros base' m' w1' Hbase. discriminate.
Qed.

(** C7: the search never gets to select a trial.  Every run of lines
    156-164 ends with an exception in the first trial, before
    [study.best_trial] is read, the line ["Best trial: ..."] is printed or
    a model is reloaded: when the base weights load and the training of
    trial 0 goes through, [trainer.evaluate()] raises [ValueError], and the
    world is left as that training left it. *)
Theorem run_search_stops_in_first_trial (w : world) :
  ∃ e w',
    run_search w = (Raise e, w')
    ∧ ∀ base m w1,
        (from_pretrained "distilbert-base-uncased" w).1 = Ok base →
        training_loop base (training_args_of 0) train_dataset w
        = (Ok m, w1) →
        e = ValueError ∧ w' = w1.
Proof.
  destruct (model_training_function_raises 0 w) as (e & w' & Hraise & He).
  exists e, w'. split; [|exact He].
  unfold run_search, mbind, script_bind. simpl. by rewrite Hraise.
Qed.

End SearchFacts.

Section SearchSample.

Import Sample.

(** On the sample collaborators: trial 0 trains, leaving its checkpoint
    and its log line, and the run ends there with [ValueError]. *)
Lemma run_search_sample :
  run_search (World ∅ [])
  = (Raise ValueError,
     World {["./results_trial_0/checkpoint-1"
             := "base trained into ./results_trial_0"]}
       ["{'loss': 2.5}"]).
Proof. by vm_compute. Qed.

End SearchSample.

(** ** The shape of an augmented sentence *)

(** C9, as the code has it: the result is the single-space join of as many
    elements as the sentence has tokens, each of them the token at its
    position or reached from it through synonyms chosen by the loop (a
    synonym of the token, or of a synonym put there earlier that is itself
    a candidate token); and there are runs whose result splits into more
    tokens than the sentence had. *)
Theorem synonym_replacement_elements :
  (∀ (wn : WordNet) (rnd : Random) (sentence : string) (n : Z) (g : rng),
     shuffle_permutes → choice_picks_member →
     ∃ new_words g',
       synonym_replacement sentence n g = Ok (Str.join " " new_words, g')
       ∧ length new_words = length (Str.split sentence)
       ∧ original_or_synonym_chain (Str.split sentence) new_words)
  ∧ (∃ (wn : WordNet) (rnd : Random) (sentence sentence' : string) (n : Z)
       (g g' : rng),
       shuffle_permutes ∧ choice_picks_member
       ∧ synonym_replacement sentence n g = Ok (sentence', g')
       ∧ (length (Str.split sentence) < length (Str.split sentence'))%nat).
Proof.
  split.
  - intros wn rnd sentence n g Hshuffle Hchoice.
    destruct (synonym_replacement_run_chain sentence n g Hshuffle Hchoice)
      as (new_words & k & g' & Hrun & Hlen & Hchain).
    exists new_words, g'. unfold synonym_replacement. by rewrite Hrun.
  - exists Sample.wordnet, Sample.random, "a pregnant cat",
      "a with child true cat", 2, (Sample.tape []), (Sample.tape []).
    split_and!.
    + apply sample_shuffle_permutes.
    + apply sample_choice_picks_member.
    + by vm_compute.
    + vm_compute. lia.
Qed.

(** ** The statements above on concrete inputs *)

Section Witnesses.

Import Sample.

Lemma loop_body_replaces_every_occurrence_witness :
  get_synonyms "cat" = Ok ["true cat"]
  ∧ ["true cat"] ≠ []
  ∧ ∃ synonym new_words' g',
      choice ["true cat"] (tape []) = (synonym, g')
      ∧ loop_body "cat" (["the"; "cat"; "cat"], 0, tape [])
        = Ok (new_words', 0 + 1, g')
      ∧ length new_words' = length ["the"; "cat"; "cat"]
      ∧ (∀ i, ["the"; "cat"; "cat"] !! i = Some "cat" →
              new_words' !! i = Some synonym)
      ∧ (∀ i word, ["the"; "cat"; "cat"] !! i = Some word → word ≠ "cat" →
                   new_words' !! i = Some word).
Proof.
  split; [vm_compute; reflexivity |]. split; [discriminate |].
  apply (loop_body_replaces_every_occurrence
           "cat" ["the"; "cat"; "cat"] ["true cat"] 0 (tape [])).
  - vm_compute; reflexivity.
  - discriminate.
Defined.

Lemma augment_example_rate_zero_witness :
  ({["text" := "hello big"; "id" := "7"]} : gmap string string) !! "text"
  = Some "hello big"
  ∧ uniform_0_1 (tape [0%nat]) = (float_zero, tape [])
  ∧ SFleb float_zero float_zero = true
  ∧ augment_example {["text" := "hello big"; "id" := "7"]} float_zero 1
      (tape [0%nat])
    = Ok ({["text" := "hello big"]}, tape []).
Proof.
  split; [vm_compute; reflexivity |]. split; [reflexivity |].
  split; [reflexivity |].
  apply (augment_example_rate_zero
           {["text" := "hello big"; "id" := "7"]} "hello big" 1
           (tape [0%nat]) (tape []) float_zero);
    vm_compute; reflexivity.
Defined.

Lemma synonym_replacement_elements_witness :
  shuffle_permutes ∧ choice_picks_member
  ∧ ∃ new_words g',
      synonym_replacement "big large" 2 (tape [])
      = Ok (Str.join " " new_words, g')
      ∧ length new_words = length (Str.split "big large")
      ∧ original_or_synonym_chain (Str.split "big large") new_words.
Proof.
  split; [apply sample_shuffle_permutes |].
  split; [apply sample_choice_picks_member |].
  apply (proj1 synonym_replacement_elements wordnet random "big large" 2
           (tape [])).
  - apply sample_shuffle_permutes.
  - apply sample_choice_picks_member.
Defined.

End Witnesses.

(** * Further properties *)

(** ** Strings *)

Lemma string_app_cons (c : ascii) (s1 s2 : string) :
  String c s1 +:+ s2 = String c (s1 +:+ s2).
Proof. reflexivity. Qed.

Lemma string_app_nil_r (s : string) : s +:+ "" = s.
Proof.
  induction s as [|c s IH]; [done |]. by rewrite string_app_cons, IH.
Qed.

Lemma string_app_assoc (s1 s2 s3 : string) :
  (s1 +:+ s2) +:+ s3 = s1 +:+ (s2 +:+ s3).
Proof.
  induction s1 as [|c s1 IH]; [done |]. by rewrite !string_app_cons, IH.
Qed.

Lemma chars_app (s1 s2 : string) : chars (s1 +:+ s2) = chars s1 ++ chars s2.
Proof.
  induction s1 as [|c s1 IH]; [done |]. rewrite string_app_cons. simpl.
  by rewrite IH.
Qed.

Lemma chars_replace (old new : ascii) (s : string) :
  chars (Str.replace old new s)
  = (λ c, if decide (c = old) then new else c) <$> chars s.
Proof. induction s as [|c s IH]; [done |]. simpl. by rewrite IH. Qed.

(** ** The synonym provider *)

Section SynonymsMore.

Context {wn : WordNet}.

(** X1: [get_synonyms] returns a list without repetition whose members are
    exactly the lemma names of the synsets of the word, underscores turned
    into spaces, other than the word itself. *)
Theorem get_synonyms_members (word : string) :
  ∃ l, get_synonyms word = Ok l
       ∧ NoDup l
       ∧ ∀ x, x ∈ l ↔
              x ≠ word
              ∧ ∃ syn lem, syn ∈ synsets word ∧ lem ∈ lemmas syn
                           ∧ x = Str.replace "_" " " (name lem).
Proof.
  exists (elements (collect_synonyms word ∖ {[word]})).
  split_and!; [apply get_synonyms_eq | apply NoDup_elements |].
  intros x.
  rewrite elem_of_elements, elem_of_difference, not_elem_of_singleton.
  rewrite elem_of_collect_synonyms. tauto.
Qed.

(** X2: no string returned by [get_synonyms] has an underscore in it. *)
Theorem get_synonyms_no_underscore (word : string) :
  ∃ l, get_synonyms word = Ok l ∧ ∀ x, x ∈ l → "_"%char ∉ chars x.
Proof.
  destruct (get_synonyms_returns word) as [l Hl]. exists l. split; [done |].
  intros x Hx. apply (elem_of_get_synonyms word x l Hl) in Hx as [_ Hx].
  apply elem_of_collect_synonyms in Hx as (syn & lem & _ & _ & ->).
  rewrite chars_replace. intros (c & Heq & _)%list_elem_of_fmap.
  by case_decide.
Qed.

Lemma has_synonyms_false (word : string) :
  has_synonyms word = false ↔ get_synonyms word = Ok [].
Proof.
  unfold has_synonyms. destruct (get_synonyms_returns word) as [l ->].
  by destruct l.
Qed.

Lemma has_synonyms_true (word : string) :
  has_synonyms word = true
  ↔ ∃ l, get_synonyms word = Ok l ∧ l ≠ [].
Proof.
  unfold has_synonyms. destruct (get_synonyms_returns word) as [l ->].
  destruct l; split; try done.
  - by intros (? & [= <-] & ?).
  - intros _. by eexists.
Qed.

End SynonymsMore.

(** ** Splitting and joining *)

Lemma split_from_one_token (s word : string) :
  word = "" ∨ one_token word → Forall one_token (Str.split_from word s).
Proof.
  revert word. induction s as [|c s IH]; intros word Hword; simpl.
  - case_decide; [constructor |]. destruct Hword; [done |].
    constructor; [done | constructor].
  - destruct (Str.isspace c) eqn:Hc.
    + apply Forall_app. split; [|apply IH; by left].
      case_decide; [constructor |]. destruct Hword; [done |].
      constructor; [done | constructor].
    + apply IH. right. split.
      * destruct word; discriminate.
      * intros c'. rewrite chars_app. simpl.
        intros [Hin|Hin%list_elem_of_singleton]%elem_of_app; [|by subst].
        destruct Hword as [->|[_ Hword]]; [by apply elem_of_nil in Hin |].
        by apply Hword.
Qed.

(** The tokens of [str.split()] are not empty and hold no white space. *)
Lemma split_one_token (s : string) : Forall one_token (Str.split s).
Proof. apply split_from_one_token. by left. Qed.

Lemma split_from_app (t word s : string) :
  (∀ c, c ∈ chars t → Str.isspace c = false) →
  Str.split_from word (t +:+ s) = Str.split_from (word +:+ t) s.
Proof.
  revert word. induction t as [|c t IH]; intros word Ht.
  - by rewrite string_app_nil_r.
  - rewrite string_app_cons. simpl. rewrite Ht by apply list_elem_of_here.
    rewrite IH.
    + by rewrite string_app_assoc.
    + intros c' Hc'. by apply Ht, list_elem_of_further.
Qed.

(** Joining single tokens with one space and splitting again gives the
    tokens back. *)
Lemma split_join (words : list string) :
  Forall one_token words → Str.split (Str.join " " words) = words.
Proof.
  unfold Str.split. induction 1 as [|word words [Hne Hword] Hwords IH].
  - done.
  - destruct words as [|word' words].
    + simpl. rewrite <- (string_app_nil_r word) at 1.
      rewrite split_from_app by done. simpl. by rewrite decide_False.
    + change (Str.join " " (word :: word' :: words))
        with (word +:+ String " " (Str.join " " (word' :: words))).
      rewrite split_from_app by done.
      change ("" +:+ word) with word.
      change (Str.split_from word (String " " ?s))
        with ((if decide (word = "") then [] else [word])
                ++ Str.split_from "" s).
      rewrite decide_False by done. by rewrite IH.
Qed.

(** ** More on the augmentation *)

Section ReplacementMore.

Context {wn : WordNet} {rnd : Random}.

(** X3: [synonym_replacement] returns a sentence for every input: the
    tests of lines 27 and 49 keep [remove] and [random.choice] from
    raising. *)
Theorem synonym_replacement_never_raises (sentence : string) (n : Z)
    (g : rng) :
  ∃ sentence' g', synonym_replacement sentence n g = Ok (sentence', g').
Proof.
  destruct (synonym_replacement_returns sentence n g) as [[sentence' g'] ?].
  by exists sentence', g'.
Qed.

Lemma replace_loop_keeps (words : list string) (n : Z)
    (random_word_list : list string) (g : rng) :
  ∃ st', replace_loop n random_word_list (words, 0, g) = Ok st'
    ∧ Forall2 (λ word new_word, has_synonyms word = false → new_word = word)
        words st'.1.1.
Proof.
  apply (replace_loop_invariant
           (λ st, Forall2 (λ word new_word,
                             has_synonyms word = false → new_word = word)
                    words st.1.1)).
  - simpl. by apply Forall_Forall2_diag, Forall_forall.
  - intros random_word [[new_words k] g0] _ Hkeep. simpl in *.
    destruct (loop_body_cases random_word new_words k g0)
      as [[_ Heq]|(synonyms & Hsyn & Hne & Heq)].
    + eexists. split; [exact Heq | done].
    + eexists. split; [exact Heq |]. simpl. apply Forall2_fmap_r.
      eapply Forall2_impl; [exact Hkeep |]. intros word new_word Hword Hnone.
      simpl. rewrite (Hword Hnone). rewrite decide_False; [done |].
      intros ->. apply has_synonyms_false in Hnone. congruence.
Qed.

(** X4: a token for which [get_synonyms] has nothing, such as a word
    unknown to the corpus, is at its position in the result whatever [n],
    the shuffle and the choices are. *)
Theorem synonym_replacement_keeps_tokens_without_synonyms
    (sentence : string) (n : Z) (g : rng) :
  ∃ new_words num_replaced g',
    synonym_replacement_run sentence n g = Ok (new_words, num_replaced, g')
    ∧ ∀ i word, Str.split sentence !! i = Some word →
                has_synonyms word = false →
                new_words !! i = Some word.
Proof.
  unfold synonym_replacement_run.
  destruct (shuffle _ g) as [random_word_list g1].
  destruct (replace_loop_keeps (Str.split sentence) n random_word_list g1)
    as ([[new_words k] g'] & Hloop & Hkeep).
  exists new_words, k, g'. split; [done |]. intros i word Hi Hnone.
  destruct (Forall2_lookup_l _ _ _ i word Hkeep Hi) as (new_word & Hnew & Heq).
  simpl in Hnew. by rewrite Hnew, (Heq Hnone).
Qed.

(** X5: when no token of the sentence has a synonym, the result is the
    tokens of the sentence joined by single spaces, for every [n]. *)
Theorem synonym_replacement_without_synonyms (sentence : string) (n : Z)
    (g : rng) :
  (∀ word, word ∈ Str.split sentence → has_synonyms word = false) →
  ∃ g', synonym_replacement sentence n g
        = Ok (Str.join " " (Str.split sentence), g').
Proof.
  intros Hnone. unfold synonym_replacement, synonym_replacement_run.
  destruct (shuffle _ g) as [random_word_list g1].
  destruct (replace_loop_keeps (Str.split sentence) n random_word_list g1)
    as ([[new_words k] g'] & -> & Hkeep).
  exists g'. simpl in *. do 3 f_equal.
  induction Hkeep as [|word new_word words new_words' Hword _ IH]; [done |].
  rewrite Hword by apply Hnone, list_elem_of_here. f_equal.
  apply IH. intros w Hw. by apply Hnone, list_elem_of_further.
Qed.

End ReplacementMore.

Section ReplacementCount.

Context {wn : WordNet} {rnd : Random}.

(** Below [n], the loop counts one replacement for every word of its list
    that has a synonym, and stops when the count reaches [n]. *)
Lemma replace_loop_count (n : Z) (random_word_list new_words : list string)
    (k : Z) (g : rng) :
  k < n →
  ∃ st', replace_loop n random_word_list (new_words, k, g) = Ok st'
    ∧ st'.1.2
      = Z.min n (k + Z.of_nat (length (filter (λ word, has_synonyms word = true)
                                         random_word_list))).
Proof.
  revert new_words k g.
  induction random_word_list as [|random_word l IH]; intros new_words k g Hk.
  - eexists. split; [done |]. simpl. lia.
  - change (replace_loop n (random_word :: l) (new_words, k, g))
      with (loop_body random_word (new_words, k, g)
              ≫= λ st, if decide (n ≤ st.1.2) then Ok st
                       else replace_loop n l st).
    destruct (loop_body_cases random_word new_words k g)
      as [[Hnone Heq]|(synonyms & Hsyn & Hne & Heq)]; rewrite Heq;
      cbn [mbind result_bind fst snd].
    + apply has_synonyms_false in Hnone.
      rewrite filter_cons_False by congruence.
      rewrite decide_False by lia. by apply IH.
    + assert (has_synonyms random_word = true) as Hsome
        by (apply has_synonyms_true; eauto).
      rewrite filter_cons_True by done. simpl length.
      case_decide as Hn.
      * eexists. split; [done |]. simpl. lia.
      * destruct (IH (replace_word random_word (choice synonyms g).1 new_words)
                    (k + 1) (choice synonyms g).2) as (st' & Hloop & Hcount);
          [lia |].
        exists st'. split; [done |]. lia.
Qed.

(** X6: for [n] at least one, the number of substitutions a call makes is
    [n] or the number of candidate tokens that have a synonym, whichever is
    smaller. *)
Theorem synonym_replacement_counts_candidates (sentence : string) (n : Z)
    (g : rng) :
  1 ≤ n →
  shuffle_permutes →
  ∃ new_words num_replaced g',
    synonym_replacement_run sentence n g = Ok (new_words, num_replaced, g')
    ∧ num_replaced
      = Z.min n (Z.of_nat (candidates_with_synonyms (Str.split sentence))).
Proof.
  intros Hn Hshuffle. unfold synonym_replacement_run, candidates_with_synonyms.
  specialize (Hshuffle (elements (candidate_pool (Str.split sentence))) g).
  destruct (shuffle _ g) as [random_word_list g1]. simpl in Hshuffle.
  destruct (replace_loop_count n random_word_list (Str.split sentence) 0 g1)
    as ([[new_words k] g'] & Hloop & Hcount); [lia |].
  exists new_words, k, g'. split; [done |]. simpl in Hcount.
  by rewrite Hcount, Hshuffle.
Qed.

Lemma one_token_synonym (word synonym : string) (synonyms : list string) :
  single_word_names →
  get_synonyms word = Ok synonyms →
  synonym ∈ synonyms →
  one_token synonym.
Proof.
  intros Hnames Hsyn Hin.
  apply (elem_of_get_synonyms word synonym synonyms Hsyn) in Hin as [_ Hin].
  apply elem_of_collect_synonyms in Hin as (syn & lem & Hsyn' & Hlem & ->).
  destruct (Hnames word syn lem Hsyn' Hlem) as [Hne Hchars]. split.
  - destruct (name lem); [done | discriminate].
  - intros c. rewrite chars_replace.
    intros (c' & -> & Hc')%list_elem_of_fmap.
    destruct (Hchars c' Hc') as [Hunder Hspace]. by rewrite decide_False.
Qed.

(** X7: over a corpus whose lemma names are single words, splitting the
    result gives as many tokens as splitting the sentence. *)
Theorem synonym_replacement_token_count (sentence : string) (n : Z)
    (g : rng) :
  single_word_names →
  choice_picks_member →
  ∃ sentence' g',
    synonym_replacement sentence n g = Ok (sentence', g')
    ∧ length (Str.split sentence') = length (Str.split sentence).
Proof.
  intros Hnames Hchoice. unfold synonym_replacement, synonym_replacement_run.
  destruct (shuffle _ g) as [random_word_list g1].
  destruct (replace_loop_invariant
              (λ st, Forall one_token st.1.1
                     ∧ length st.1.1 = length (Str.split sentence))
              n random_word_list (Str.split sentence, 0, g1))
    as ([[new_words k] g'] & -> & Htokens & Hlen).
  - split; [apply split_one_token | done].
  - intros random_word [[new_words k] g0] _ [Htokens Hlen]. simpl in *.
    destruct (loop_body_cases random_word new_words k g0)
      as [[_ Heq]|(synonyms & Hsyn & Hne & Heq)].
    + eexists. split; [exact Heq | done].
    + eexists. split; [exact Heq |]. simpl.
      split; [|by rewrite replace_word_length].
      apply Forall_fmap. eapply Forall_impl; [exact Htokens |].
      intros word Hword. simpl. case_decide; [|done].
      eapply one_token_synonym; [done | exact Hsyn |]. by apply Hchoice.
  - exists (Str.join " " new_words), g'. split; [done |]. simpl in *.
    by rewrite split_join.
Qed.

End ReplacementCount.

(** ** More on the corpus filter *)

Section FilterMore.

Context {tok : Tokenizer}.

Local Abbreviation token_count line := (Z.of_nat (length (tokenize line))).

Lemma filter_sentences_eq (input_file : list string) (max_tokens : Z) :
  filter_sentences_by_token_limit input_file max_tokens
  = filter (λ line, token_count line ≤ max_tokens) input_file.
Proof. unfold filter_sentences_by_token_limit. by rewrite filter_loop_eq. Qed.

(** X8: filtering with one limit and then with another is filtering once
    with the smaller of the two; in particular a second pass with the same
    limit changes nothing. *)
Theorem filter_sentences_twice (input_file : list string) (m1 m2 : Z) :
  filter_sentences_by_token_limit
    (filter_sentences_by_token_limit input_file m1) m2
  = filter_sentences_by_token_limit input_file (Z.min m1 m2)
  ∧ filter_sentences_by_token_limit
      (filter_sentences_by_token_limit input_file m1) m1
    = filter_sentences_by_token_limit input_file m1.
Proof.
  assert (∀ a b,
    filter_sentences_by_token_limit
      (filter_sentences_by_token_limit input_file a) b
    = filter_sentences_by_token_limit input_file (Z.min a b)) as Htwice.
  { intros a b. rewrite !filter_sentences_eq, list_filter_filter.
    apply list_filter_iff. intros line. lia. }
  split; [apply Htwice |]. by rewrite Htwice, Z.min_id.
Qed.

(** X9: with a negative limit nothing is written. *)
Theorem filter_sentences_negative_limit (input_file : list string)
    (max_tokens : Z) :
  max_tokens < 0 →
  filter_sentences_by_token_limit input_file max_tokens = [].
Proof.
  intros Hneg. rewrite filter_sentences_eq.
  induction input_file as [|line input_file IH]; [done |].
  rewrite filter_cons_False by lia. done.
Qed.

Lemma filter_sentences_all (input_file : list string) (max_tokens : Z) :
  (∀ line, line ∈ input_file → token_count line ≤ max_tokens) →
  filter_sentences_by_token_limit input_file max_tokens = input_file.
Proof.
  rewrite filter_sentences_eq. intros Hall.
  induction input_file as [|line input_file IH]; [done |].
  rewrite filter_cons_True by apply Hall, list_elem_of_here.
  f_equal. apply IH. intros l Hl. by apply Hall, list_elem_of_further.
Qed.

(** X10: the output is the whole input exactly when every line is within
    the limit. *)
Theorem filter_sentences_keeps_all (input_file : list string)
    (max_tokens : Z) :
  filter_sentences_by_token_limit input_file max_tokens = input_file
  ↔ ∀ line, line ∈ input_file → token_count line ≤ max_tokens.
Proof.
  split; [|apply filter_sentences_all].
  rewrite filter_sentences_eq. intros Heq line Hin. rewrite <- Heq in Hin.
  by apply list_elem_of_filter in Hin as [? _].
Qed.

End FilterMore.

(** ** The files *)

Lemma file_lines_cons (line : string) (lines : list string) :
  terminated line → file_lines lines → file_lines (line :: lines).
Proof. intros Hline Hlines. destruct lines; [by left | done]. Qed.

Lemma file_lines_inv (line : string) (lines : list string) :
  file_lines (line :: lines) →
  (terminated line ∨ (unterminated line ∧ lines = [])) ∧ file_lines lines.
Proof.
  destruct lines as [|line' lines]; simpl.
  - intros [?|?]; split; auto.
  - intros [? ?]. split; [by left | done].
Qed.

(** The lines cut from a text end with a newline, but possibly the last. *)
Lemma lines_from_file_lines (text line : string) :
  "010"%char ∉ chars line → file_lines (lines_from line text).
Proof.
  revert line. induction text as [|c text IH]; intros line Hline; simpl.
  - case_decide; [done |]. by right.
  - case_decide as Hc.
    + apply file_lines_cons; [|by apply IH, not_elem_of_nil].
      exists line. by subst.
    + apply IH. rewrite chars_app. simpl.
      intros [?|?%list_elem_of_singleton]%elem_of_app; [done | by subst].
Qed.

Lemma concat_lines_lines_from (text line : string) :
  concat_lines (lines_from line text) = line +:+ text.
Proof.
  revert line. induction text as [|c text IH]; intros line; simpl.
  - case_decide; [by subst | done].
  - case_decide.
    + simpl. rewrite (IH ""). by rewrite string_app_assoc.
    + rewrite IH. by rewrite string_app_assoc.
Qed.

Lemma lines_from_terminated (body line rest : string) :
  "010"%char ∉ chars body →
  lines_from line (body +:+ String "010" rest)
  = (line +:+ body +:+ String "010" "") :: lines_from "" rest.
Proof.
  revert line. induction body as [|c body IH]; intros line Hbody.
  - reflexivity.
  - rewrite string_app_cons. simpl. rewrite decide_False.
    + rewrite IH.
      * by rewrite !string_app_assoc.
      * intros Hin. apply Hbody. by apply list_elem_of_further.
    + intros ->. apply Hbody, list_elem_of_here.
Qed.

Lemma lines_from_unterminated (body line : string) :
  "010"%char ∉ chars body →
  lines_from line body
  = if decide (line +:+ body = "") then [] else [line +:+ body].
Proof.
  revert line. induction body as [|c body IH]; intros line Hbody.
  - simpl. by rewrite string_app_nil_r.
  - simpl. rewrite decide_False.
    + rewrite IH.
      * by rewrite !string_app_assoc.
      * intros Hin. apply Hbody. by apply list_elem_of_further.
    + intros ->. apply Hbody, list_elem_of_here.
Qed.

(** Cutting the text of a sequence of lines gives the lines back. *)
Lemma lines_from_concat_lines (lines : list string) :
  file_lines lines → lines_from "" (concat_lines lines) = lines.
Proof.
  induction lines as [|line lines IH]; [done |].
  intros [Hline Hlines]%file_lines_inv. simpl.
  destruct Hline as [(body & -> & Hbody)|[[Hne Hline] ->]].
  - rewrite string_app_assoc, string_app_cons.
    change ("" +:+ concat_lines lines) with (concat_lines lines).
    rewrite lines_from_terminated by done. by rewrite IH.
  - simpl. rewrite string_app_nil_r.
    rewrite lines_from_unterminated by done. by rewrite decide_False.
Qed.

Lemma file_lines_sublist (sub lines : list string) :
  sub `sublist_of` lines → file_lines lines → file_lines sub.
Proof.
  induction 1 as [|line sub lines Hsub IH|line sub lines Hsub IH].
  - done.
  - intros [[Hline|[Hline ->]] Hlines]%file_lines_inv.
    + by apply file_lines_cons, IH.
    + apply sublist_nil_r in Hsub as ->. by right.
  - intros [_ Hlines]%file_lines_inv. by apply IH.
Qed.

Lemma elem_of_chars_concat_lines (c : ascii) (lines : list string) :
  c ∈ chars (concat_lines lines) ↔ ∃ line, line ∈ lines ∧ c ∈ chars line.
Proof.
  induction lines as [|line lines IH]; simpl.
  - split; [by intros ?%elem_of_nil | by intros (? & ?%elem_of_nil & _)].
  - rewrite chars_app, elem_of_app, IH. split.
    + intros [?|(l & ? & ?)].
      * exists line. split; [apply list_elem_of_here | done].
      * exists l. split; [by apply list_elem_of_further | done].
    + intros (l & [->|?]%elem_of_cons & ?); [by left | right; by exists l].
Qed.

Lemma universal_newlines_unfold (content : string) :
  universal_newlines content
  = match content with
    | EmptyString => EmptyString
    | String c content' =>
        if decide (c = "013"%char) then
          String "010"
            match content' with
            | EmptyString => EmptyString
            | String c' content'' =>
                if decide (c' = "010"%char) then universal_newlines content''
                else universal_newlines content'
            end
        else String c (universal_newlines content')
    end.
Proof. by destruct content. Qed.

(** No carriage return is left in what is read. *)
Lemma universal_newlines_no_cr (content : string) :
  "013"%char ∉ chars (universal_newlines content).
Proof.
  cut (("013"%char ∉ chars (universal_newlines content))
       ∧ (∀ c, "013"%char ∉ chars (universal_newlines (String c content))));
    [by intros [? _] |].
  induction content as [|a content [IH1 IH2]].
  - split; [apply not_elem_of_nil |]. intros c. simpl.
    case_decide; simpl; intros [?|?%elem_of_nil]%elem_of_cons; done.
  - split; [apply IH2 |]. intros c. rewrite universal_newlines_unfold.
    case_decide as Hc.
    + cbn [chars]. intros [?|Hin]%elem_of_cons; [done |].
      case_decide; [by apply IH1 | by apply (IH2 a)].
    + cbn [chars]. intros [?|Hin]%elem_of_cons; [done |]. by apply (IH2 a).
Qed.

Lemma universal_newlines_id (content : string) :
  "013"%char ∉ chars content → universal_newlines content = content.
Proof.
  induction content as [|c content IH]; [done |]. intros Hcr.
  rewrite universal_newlines_unfold. rewrite decide_False.
  - f_equal. apply IH. intros Hin. apply Hcr. by apply list_elem_of_further.
  - intros ->. apply Hcr, list_elem_of_here.
Qed.

Lemma readlines_no_cr (content line : string) :
  line ∈ readlines content → "013"%char ∉ chars line.
Proof.
  intros Hline Hcr.
  apply (universal_newlines_no_cr content).
  change (universal_newlines content)
    with ("" +:+ universal_newlines content).
  rewrite <- concat_lines_lines_from. apply elem_of_chars_concat_lines.
  by exists line.
Qed.

Section WriteFacts.

Context {os : OS}.

Lemma write_newlines_app (a b : string) :
  write_newlines (a +:+ b) = write_newlines a +:+ write_newlines b.
Proof.
  induction a as [|c a IH]; [done |]. rewrite string_app_cons. simpl.
  case_decide.
  - by rewrite IH, string_app_assoc.
  - by rewrite IH.
Qed.

Lemma written_concat_lines (lines : list string) :
  written lines = write_newlines (concat_lines lines).
Proof.
  induction lines as [|line lines IH]; [done |]. simpl.
  by rewrite write_newlines_app, IH.
Qed.

(** What is written with a line separator of [os.linesep] is read back as
    it was given to [write]. *)
Lemma universal_write_newlines (text : string) :
  linesep = String "010" "" ∨ linesep = String "013" (String "010" "") →
  "013"%char ∉ chars text →
  universal_newlines (write_newlines text) = text.
Proof.
  intros Hsep. induction text as [|c text IH]; [done |]. intros Hcr.
  assert (c ≠ "013"%char) as Hc by (intros ->; apply Hcr, list_elem_of_here).
  assert (universal_newlines (write_newlines text) = text) as IH'.
  { apply IH. intros Hin. apply Hcr. by apply list_elem_of_further. }
  simpl. case_decide as Hnl.
  - subst c. destruct Hsep as [-> | ->].
    + change (String "010" "" +:+ write_newlines text)
        with (String "010" (write_newlines text)).
      rewrite universal_newlines_unfold. rewrite decide_False by done.
      by rewrite IH'.
    + change (String "013" (String "010" "") +:+ write_newlines text)
        with (String "013" (String "010" (write_newlines text))).
      rewrite universal_newlines_unfold.
      rewrite decide_True by done. rewrite decide_True by done.
      by rewrite IH'.
  - rewrite universal_newlines_unfold. rewrite decide_False by done.
    by rewrite IH'.
Qed.

Lemma write_newlines_posix (text : string) :
  linesep = String "010" "" → write_newlines text = text.
Proof.
  intros Hsep. induction text as [|c text IH]; [done |]. simpl.
  rewrite IH. case_decide; [|done]. subst c. by rewrite Hsep.
Qed.

End WriteFacts.

Section FilterFiles.

Context {tok : Tokenizer} {os : OS}.

Lemma filter_file_eq (input_content : string) (max_tokens : Z) :
  filter_file input_content max_tokens
  = write_newlines
      (concat_lines
         (filter_sentences_by_token_limit (readlines input_content)
            max_tokens)).
Proof. unfold filter_file. apply written_concat_lines. Qed.

(** X11: with a line separator of newline, or of carriage return and
    newline, reading the output file back line by line gives exactly the
    lines the filter kept. *)
Theorem filter_file_readlines (input_content : string) (max_tokens : Z) :
  linesep = String "010" "" ∨ linesep = String "013" (String "010" "") →
  readlines (filter_file input_content max_tokens)
  = filter_sentences_by_token_limit (readlines input_content) max_tokens.
Proof.
  intros Hsep. rewrite filter_file_eq. unfold readlines at 1.
  rewrite universal_write_newlines; [|done |].
  - apply lines_from_concat_lines. eapply file_lines_sublist.
    + rewrite filter_sentences_eq. apply sublist_filter.
    + apply lines_from_file_lines, not_elem_of_nil.
  - intros (line & Hline & Hcr)%elem_of_chars_concat_lines.
    rewrite filter_sentences_eq in Hline.
    apply list_elem_of_filter in Hline as [_ Hline].
    by apply (readlines_no_cr input_content line).
Qed.

(** X12: when every line of the input file is within the limit, the
    output file is the input file with each of its line endings written as
    the line separator; with newline as the separator, an input file
    without carriage returns is copied as it is. *)
Theorem filter_file_copies (input_content : string) (max_tokens : Z) :
  (∀ line, line ∈ readlines input_content →
           Z.of_nat (length (tokenize line)) ≤ max_tokens) →
  filter_file input_content max_tokens
  = write_newlines (universal_newlines input_content)
  ∧ (linesep = String "010" "" →
     "013"%char ∉ chars input_content →
     filter_file input_content max_tokens = input_content).
Proof.
  intros Hall.
  assert (filter_file input_content max_tokens
          = write_newlines (universal_newlines input_content)) as Heq.
  { rewrite filter_file_eq, (filter_sentences_all _ _ Hall).
    unfold readlines. by rewrite concat_lines_lines_from. }
  split; [done |]. intros Hsep Hcr.
  by rewrite Heq, write_newlines_posix, universal_newlines_id.
Qed.

End FilterFiles.

(** ** More on the gate *)

Lemma SFltb_SFleb_trans (a b c : float) :
  SFltb a b = true → SFleb b c = true → SFltb a c = true.
Proof.
  intros Hab Hbc.
  destruct a as [[]|[]| |[] ma ea], b as [[]|[]| |[] mb eb],
    c as [[]|[]| |[] mc ec];
    unfold SFleb, SFltb, SFcompare in *;
    change (Pos.compare_cont Eq) with Pos.compare in *;
    try done;
    destruct (Z.compare_spec ea eb), (Z.compare_spec eb ec),
      (Z.compare_spec ea ec);
    try done; try lia;
    destruct (Pos.compare_spec ma mb), (Pos.compare_spec mb mc),
      (Pos.compare_spec ma mc);
    simpl in *; try done; lia.
Qed.

Section GateMore.

Context {wn : WordNet} {rnd : Random}.

(** X14: with a rate of [1.0] or more and a draw below [1.0], the text of
    the example is replaced by what [synonym_replacement] makes of it. *)
Theorem augment_example_rate_at_least_one (example : gmap string string)
    (text : string) (augment_rate : float) (n : Z) (g g1 : rng) (u : float) :
  example !! "text" = Some text →
  uniform_0_1 g = (u, g1) →
  SFltb u float_one = true →
  SFleb float_one augment_rate = true →
  ∃ text' g',
    synonym_replacement text n g1 = Ok (text', g')
    ∧ augment_example example augment_rate n g = Ok ({["text" := text']}, g').
Proof.
  intros Htext Hdraw Hu Hrate.
  destruct (synonym_replacement_returns text n g1) as [[text' g'] Hrepl].
  exists text', g'. split; [done |].
  unfold augment_example, getitem.
  rewrite Hdraw, (SFltb_SFleb_trans u float_one augment_rate Hu Hrate), Htext.
  simpl. by rewrite Hrepl.
Qed.

(** X15: the augmented dataset of lines 101-102 is built without an
    exception and has one row per line, in order; each row has the single
    key ['text'], and its text is the line itself or what
    [synonym_replacement] with [n = 2] makes of the line. *)
Theorem augmented_data_rows (data : list string) (g : rng) :
  ∃ rows g',
    augmented_data data g = Ok (rows, g')
    ∧ Forall2 (λ text row,
                 dom row = {["text"]}
                 ∧ ∃ text', row !! "text" = Some text'
                    ∧ (text' = text
                       ∨ ∃ g1 g2, synonym_replacement text 2 g1
                                  = Ok (text', g2)))
        data rows.
Proof.
  unfold augmented_data, from_dict_text. revert g.
  induction data as [|text data IH]; intros g.
  - exists [], g. split; [done | constructor].
  - assert (∃ text' g1,
      augment_example {["text" := text]} float_0_3 2 g
      = Ok ({["text" := text']}, g1)
      ∧ (text' = text
         ∨ ∃ g2 g3, synonym_replacement text 2 g2 = Ok (text', g3)))
      as (text' & g1 & Haug & Htext').
    { unfold augment_example, getitem. destruct (uniform_0_1 g) as [u g0].
      rewrite lookup_singleton_eq. destruct (SFltb u float_0_3); simpl.
      - destruct (synonym_replacement_returns text 2 g0) as [[text' g1] Hr].
        rewrite Hr. simpl. exists text', g1. split; [done |]. right. eauto.
      - exists text, g0. split; [done | by left]. }
    destruct (IH g1) as (rows & g' & Hmap & Hrows).
    exists (({["text" := text']} ∪ {["text" := text]}) :: rows), g'.
    split.
    + rewrite fmap_cons. simpl. rewrite Haug. simpl. by rewrite Hmap.
    + constructor; [|done]. split.
      * rewrite dom_union_L, !dom_singleton_L. by rewrite union_idemp_L.
      * exists text'. split; [|done].
        apply lookup_union_Some_l, lookup_singleton_eq.
Qed.

End GateMore.

(** ** The further statements on concrete inputs *)

Section WitnessesMore.

Import Sample.

Lemma synonym_replacement_without_synonyms_witness :
  (∀ word, word ∈ Str.split "the  sat" → has_synonyms word = false)
  ∧ ∃ g', synonym_replacement "the  sat" 3 (tape [])
          = Ok (Str.join " " (Str.split "the  sat"), g').
Proof.
  assert (∀ word, word ∈ Str.split "the  sat" → has_synonyms word = false)
    as Hnone.
  { intros word Hin. vm_compute in Hin.
    apply elem_of_cons in Hin as [->|Hin]; [reflexivity |].
    apply list_elem_of_singleton in Hin as ->. reflexivity. }
  split; [exact Hnone |].
  apply (synonym_replacement_without_synonyms "the  sat" 3 (tape []) Hnone).
Defined.

Lemma synonym_replacement_counts_candidates_witness :
  1 ≤ 1
  ∧ shuffle_permutes
  ∧ ∃ new_words num_replaced g',
      synonym_replacement_run "big cat the" 1 (tape [])
      = Ok (new_words, num_replaced, g')
      ∧ num_replaced
        = Z.min 1 (Z.of_nat (candidates_with_synonyms
                               (Str.split "big cat the"))).
Proof.
  split; [lia |]. split; [apply sample_shuffle_permutes |].
  apply (synonym_replacement_counts_candidates "big cat the" 1 (tape []));
    [lia | apply sample_shuffle_permutes].
Defined.

Lemma sample_words_single_word_names :
  single_word_names (H := SampleWords.wordnet).
Proof.
  intros word syn lem Hsyn Hlem.
  assert (name lem = "large" ∨ name lem = "big" ∨ name lem = "happy"
          ∨ name lem = "glad") as Hname.
  { unfold synsets, SampleWords.wordnet in Hsyn.
    repeat case_decide;
      repeat (apply elem_of_cons in Hsyn as [->|Hsyn]);
      try (by apply elem_of_nil in Hsyn);
      simpl in Hlem;
      repeat (apply elem_of_cons in Hlem as [->|Hlem]);
      try (by apply elem_of_nil in Hlem); simpl; auto. }
  destruct Hname as [-> | [-> | [-> | ->]]]; (split; [discriminate |]);
    intros c Hc; simpl in Hc;
    repeat (apply elem_of_cons in Hc as [->|Hc]; [by split |]);
    by apply elem_of_nil in Hc.
Qed.

Lemma synonym_replacement_token_count_witness :
  single_word_names (H := SampleWords.wordnet)
  ∧ choice_picks_member
  ∧ ∃ sentence' g',
      synonym_replacement (wn := SampleWords.wordnet) "a big  happy day" 2
        (tape [])
      = Ok (sentence', g')
      ∧ length (Str.split sentence') = length (Str.split "a big  happy day").
Proof.
  split; [apply sample_words_single_word_names |].
  split; [apply sample_choice_picks_member |].
  apply (synonym_replacement_token_count (wn := SampleWords.wordnet)
           "a big  happy day" 2 (tape [])).
  - apply sample_words_single_word_names.
  - apply sample_choice_picks_member.
Defined.

Lemma filter_sentences_negative_limit_witness :
  -1 < 0 ∧ filter_sentences_by_token_limit ["a b"; "c"] (-1) = [].
Proof.
  split; [lia |].
  apply (filter_sentences_negative_limit ["a b"; "c"] (-1)). lia.
Defined.

Lemma filter_file_readlines_witness :
  (linesep = String "010" "" ∨ linesep = String "013" (String "010" ""))
  ∧ readlines (filter_file corpus_file 2)
    = filter_sentences_by_token_limit (readlines corpus_file) 2.
Proof.
  split; [by left |].
  apply (filter_file_readlines corpus_file 2). by left.
Defined.

Lemma filter_file_copies_witness :
  (∀ line, line ∈ readlines corpus_file →
           Z.of_nat (length (tokenize line)) ≤ 3)
  ∧ filter_file corpus_file 3
    = write_newlines (universal_newlines corpus_file)
  ∧ (linesep = String "010" "" →
     "013"%char ∉ chars corpus_file →
     filter_file corpus_file 3 = corpus_file).
Proof.
  assert (∀ line, line ∈ readlines corpus_file →
            Z.of_nat (length (tokenize line)) ≤ 3) as Hall.
  { intros line Hin. vm_compute in Hin.
    repeat (apply elem_of_cons in Hin as [->|Hin]; [by vm_compute |]).
    by apply elem_of_nil in Hin. }
  split; [exact Hall |]. apply (filter_file_copies corpus_file 3 Hall).
Defined.

Lemma augment_example_rate_at_least_one_witness :
  ({["text" := "big"]} : gmap string string) !! "text" = Some "big"
  ∧ uniform_0_1 (tape [1%nat]) = (float_half, tape [])
  ∧ SFltb float_half float_one = true
  ∧ SFleb float_one float_one = true
  ∧ ∃ text' g',
      synonym_replacement "big" 1 (tape []) = Ok (text', g')
      ∧ augment_example {["text" := "big"]} float_one 1 (tape [1%nat])
        = Ok ({["text" := text']}, g').
Proof.
  split; [vm_compute; reflexivity |]. do 3 (split; [reflexivity |]).
  apply (augment_example_rate_at_least_one
           {["text" := "big"]} "big" float_one 1 (tape [1%nat]) (tape [])
           float_half);
    vm_compute; reflexivity.
Defined.

End WitnessesMore.
